(** * StructLM schemas: a shallow embedding of [src/schema.ts] and [src/types.ts]

    The five schema classes ([StringSchema], [NumberSchema], [BooleanSchema],
    [ArraySchema], [ObjectSchema]) and their shared base class [Schema] are
    embedded as one inductive type; [stringify] and [parse] are the methods of
    the same names.  The host's JSON and object semantics that the code relies
    on (property enumeration order, the [in] operator, the [__proto__]
    accessor, [JSON.stringify] of non-finite numbers) are written out below. *)

From Stdlib Require Import String Ascii List ZArith NArith Bool Sorted Permutation Lia.
Set Warnings "-register-all".
Import ListNotations.
Open Scope string_scope.

(** ** JSON values *)

(** JavaScript numbers.  The code never computes on numbers, so finite ones
    are represented by an exact tag ([Finite]); negative zero and the
    non-finite ones matter because [JSON.stringify] writes [-0] as [0] and
    the non-finite ones as [null]. *)
Inductive jsnum : Type :=
| Finite (z : Z)   (** a finite number other than negative zero *)
| NegZero          (** [-0]: what [JSON.parse('-0')] returns *)
| NaN
| Infinity
| NegInfinity.

(** The values [JSON.parse] produces (and the values a caller may encode).
    An object is its list of own enumerable properties, in enumeration order. *)
Inductive jval : Type :=
| JNull
| JBool (b : bool)
| JNum (n : jsnum)
| JStr (s : string)
| JArr (xs : list jval)
| JObj (ps : list (string * jval)).

(** [typeof v] *)
Definition typeof (v : jval) : string :=
  match v with
  | JNull => "object"
  | JBool _ => "boolean"
  | JNum _ => "number"
  | JStr _ => "string"
  | JArr _ => "object"
  | JObj _ => "object"
  end.

(** ** Ordinary objects: property order, [in], assignment *)

Definition digit_val (c : ascii) : option N :=
  let n := nat_of_ascii c in
  if (48 <=? n)%nat && (n <=? 57)%nat then Some (N.of_nat (n - 48)) else None.

Fixpoint digits_value (s : string) (acc : N) : option N :=
  match s with
  | EmptyString => Some acc
  | String c rest =>
      match digit_val c with
      | Some d => digits_value rest (acc * 10 + d)%N
      | None => None
      end
  end.

(** A property key that is an array index: the canonical decimal form of an
    integer below [2^32 - 1].  Such keys enumerate first, in ascending numeric
    order; all other string keys enumerate in creation order. *)
Definition array_index (k : string) : option N :=
  match k with
  | EmptyString => None
  | String c rest =>
      if Ascii.eqb c "0"%char then
        match rest with EmptyString => Some 0%N | _ => None end
      else
        match digits_value k 0 with
        | Some n => if (n <? 4294967295)%N then Some n else None
        | None => None
        end
  end.

Section Props.
Context {A : Type}.

Fixpoint own_lookup (ps : list (string * A)) (k : string) : option A :=
  match ps with
  | [] => None
  | (k', v) :: rest => if String.eqb k k' then Some v else own_lookup rest k
  end.

Definition has_own (ps : list (string * A)) (k : string) : bool :=
  match own_lookup ps k with Some _ => true | None => false end.

Fixpoint update_property (ps : list (string * A)) (k : string) (v : A)
  : list (string * A) :=
  match ps with
  | [] => []
  | (k', v') :: rest =>
      if String.eqb k k' then (k', v) :: rest
      else (k', v') :: update_property rest k v
  end.

Fixpoint insert_index (n : N) (k : string) (v : A) (ps : list (string * A))
  : list (string * A) :=
  match ps with
  | [] => [(k, v)]
  | (k', v') :: rest =>
      match array_index k' with
      | Some n' =>
          if (n' <? n)%N then (k', v') :: insert_index n k v rest
          else (k, v) :: ps
      | None => (k, v) :: ps
      end
  end.

(** A new own property takes its place in enumeration order. *)
Definition add_property (ps : list (string * A)) (k : string) (v : A)
  : list (string * A) :=
  match array_index k with
  | Some n => insert_index n k v ps
  | None => ps ++ [(k, v)]
  end.

(** CreateDataProperty: used by object literals and by [JSON.parse]. *)
Definition define_property (ps : list (string * A)) (k : string) (v : A)
  : list (string * A) :=
  if has_own ps k then update_property ps k v else add_property ps k v.

(** An object literal [{ k1: v1, k2: v2, ... }] (computed keys included). *)
Definition object_literal (entries : list (string * A)) : list (string * A) :=
  fold_left (fun acc '(k, v) => define_property acc k v) entries [].

(** The property names of [Object.prototype]; every plain object inherits
    them. *)
Definition object_prototype_keys : list string :=
  ["constructor"; "__defineGetter__"; "__defineSetter__"; "hasOwnProperty";
   "__lookupGetter__"; "__lookupSetter__"; "isPrototypeOf";
   "propertyIsEnumerable"; "toString"; "valueOf"; "__proto__";
   "toLocaleString"].

Definition inherited_key (k : string) : bool :=
  existsb (String.eqb k) object_prototype_keys.

(** [k in obj] for a plain object: own properties and inherited ones. *)
Definition js_in (ps : list (string * A)) (k : string) : bool :=
  has_own ps k || inherited_key k.

(** [obj[k] = v] on a plain object.  [__proto__] is an inherited accessor:
    assigning it changes the prototype (or nothing, for a primitive value)
    and adds no own property.  The embedding represents an object by its own
    properties, so the prototype change is not recorded. *)
Definition assign_property (ps : list (string * A)) (k : string) (v : A)
  : list (string * A) :=
  if has_own ps k then update_property ps k v
  else if String.eqb k "__proto__" then ps
  else add_property ps k v.
End Props.

(** ** JSON text

    A JSON text is identified with what [JSON.parse] reads from it: either a
    value, or a [SyntaxError] with its message. *)
Inductive json_text : Type :=
| JSONText (v : jval)
| JSONSyntaxError (message : string).

(** [JSON.parse(JSON.stringify(v))] for a JSON value: [-0] becomes [0] and
    non-finite numbers become [null]; objects are re-created property by property, in the order
    [JSON.stringify] emits them. *)
Fixpoint json_reread (v : jval) : jval :=
  match v with
  | JNum (Finite z) => JNum (Finite z)
  | JNum NegZero => JNum (Finite 0)
  | JNum _ => JNull
  | JArr xs => JArr (map json_reread xs)
  | JObj ps => JObj (object_literal (map (fun '(k, x) => (k, json_reread x)) ps))
  | _ => v
  end.

(** [JSON.stringify(v)], as the text the callee will [JSON.parse]. *)
Definition JSON_stringify (v : jval) : json_text := JSONText (json_reread v).

(** The message of [JSON.parse(undefined)]: [JSON.stringify] of a function
    is [undefined], and [JSON.parse] reads it as the text [undefined]. *)
Definition undefined_not_valid_json : string :=
  String "034"%char ("undefined" ++ String "034"%char " is not valid JSON").

(** [JSON.stringify(obj[k])] when [k] is inherited from [Object.prototype]:
    [Object.prototype] itself (for [__proto__]) prints as [{}]; the other
    inherited members are functions. *)
Definition inherited_text (k : string) : json_text :=
  if String.eqb k "__proto__" then JSONText (JObj [])
  else JSONSyntaxError undefined_not_valid_json.

(** [JSON.stringify(parsedObj[key])] *)
Definition field_text (parsedObj : list (string * jval)) (key : string) : json_text :=
  match own_lookup parsedObj key with
  | Some v => JSON_stringify v
  | None => inherited_text key
  end.

(** ** Errors

    The code throws [Error]s whose messages follow these templates. *)
Inductive parse_error : Type :=
| InvalidJson (message : string)                  (** ["Invalid JSON: " + msg] *)
| TypeMismatch (expected actual : string)         (** ["Expected e, got a"] *)
| ValidationFailed (value : jval)                 (** ["Validation failed for value: ..."] *)
| ArrayValidationFailed (value : jval)            (** ["Array validation failed for value: ..."] *)
| ObjectValidationFailed (value : jval)           (** ["Object validation failed for value: ..."] *)
| MissingRequiredProperty (key : string)          (** ["Missing required property: k"] *)
| ArrayItemFailed (index : nat) (inner : parse_error)  (** ["Array item at index i: " + inner] *)
| PropertyFailed (key : string) (inner : parse_error). (** ["Property 'k': " + inner] *)

(** A computation that returns a value or throws. *)
Inductive outcome (A : Type) : Type :=
| Ok (a : A)
| Throw (e : parse_error).
Arguments Ok {A} a.
Arguments Throw {A} e.

Definition bind {A B} (m : outcome A) (k : A -> outcome B) : outcome B :=
  match m with Ok a => k a | Throw e => Throw e end.
Notation "x <- m ;; k" := (bind m (fun x => k))
  (at level 61, m at next level, right associativity).

(** ** Schemas *)

(** A validation function, with the text [fn.toString()] gives for it. *)
Record validator : Type := Validator {
  fn : jval -> bool;
  fn_source : string
}.

(** The fields of the base class [Schema]. *)
Record meta : Type := Meta {
  validationFn : option validator;
  isOptional : bool
}.

Inductive schema : Type :=
| StringSchema (m : meta)
| NumberSchema (m : meta)
| BooleanSchema (m : meta)
| ArraySchema (itemSchema : schema) (m : meta)
| ObjectSchema (shape : list (string * schema)) (m : meta).

Definition schema_meta (s : schema) : meta :=
  match s with
  | StringSchema m | NumberSchema m | BooleanSchema m => m
  | ArraySchema _ m | ObjectSchema _ m => m
  end.

Definition with_meta (f : meta -> meta) (s : schema) : schema :=
  match s with
  | StringSchema m => StringSchema (f m)
  | NumberSchema m => NumberSchema (f m)
  | BooleanSchema m => BooleanSchema (f m)
  | ArraySchema item m => ArraySchema item (f m)
  | ObjectSchema shape m => ObjectSchema shape (f m)
  end.

Definition default_meta : meta := {| validationFn := None; isOptional := false |}.

(** [validate(fn)]: sets [validationFn]. *)
Definition validate (f : validator) (s : schema) : schema :=
  with_meta (fun m => {| validationFn := Some f; isOptional := isOptional m |}) s.

(** [optional()]: sets [isOptional]. *)
Definition optional (s : schema) : schema :=
  with_meta (fun m => {| validationFn := validationFn m; isOptional := true |}) s.

(** The builders [s.string()], [s.number()], [s.boolean()], [s.array(item)],
    [s.object({ ... })]. *)
Definition s_string : schema := StringSchema default_meta.
Definition s_number : schema := NumberSchema default_meta.
Definition s_boolean : schema := BooleanSchema default_meta.
Definition s_array (item : schema) : schema := ArraySchema item default_meta.
Definition s_object (lit : list (string * schema)) : schema :=
  ObjectSchema (object_literal lit) default_meta.

(** [runValidation(value)] *)
Definition runValidation (m : meta) (value : jval) : bool :=
  match validationFn m with Some f => fn f value | None => true end.

(** ** stringify *)

(** [buildStringifyResult(baseType)] *)
Definition buildStringifyResult (m : meta) (baseType : string) : string :=
  let hints :=
    app (match validationFn m with Some f => [fn_source f] | None => [] end)
        (if isOptional m then ["optional"] else []) in
  match hints with
  | [] => baseType
  | _ => baseType ++ " /* " ++ String.concat ", " hints ++ " */"
  end.

Fixpoint stringify (s : schema) : string :=
  match s with
  | StringSchema m => buildStringifyResult m "string"
  | NumberSchema m => buildStringifyResult m "number"
  | BooleanSchema m => buildStringifyResult m "boolean"
  | ArraySchema item m => buildStringifyResult m ("[" ++ stringify item ++ "]")
  | ObjectSchema shape m =>
      let entries := map (fun '(key, fs) => key ++ ": " ++ stringify fs) shape in
      buildStringifyResult m ("{ " ++ String.concat ", " entries ++ " }")
  end.

(** ** parse *)

(** One iteration of the field loop of [ObjectSchema.parse]. *)
Inductive field_outcome : Type :=
| FieldSkipped                      (** [continue]: optional and missing *)
| FieldAssigned (r : jval)          (** [result[key] = schema.parse(...)] *)
| FieldFailed (e : parse_error).    (** a [throw] *)

(** The body of [for (const [key, schema] of Object.entries(this.shape))];
    [child] is [schema.parse] and [opt] is [schema.isOptional]. *)
Definition field_step (child : json_text -> outcome jval) (opt : bool)
    (parsedObj : list (string * jval)) (key : string) : field_outcome :=
  if negb (js_in parsedObj key) then
    if opt then FieldSkipped else FieldFailed (MissingRequiredProperty key)
  else
    match child (field_text parsedObj key) with
    | Ok r => FieldAssigned r
    | Throw e => FieldFailed (PropertyFailed key e)
    end.

(** The loop of [ArraySchema.parse]: [i] is the index, [result] the array
    pushed to. *)
Fixpoint parse_items (parseItem : json_text -> outcome jval) (i : nat)
    (xs : list jval) (result : list jval) : outcome (list jval) :=
  match xs with
  | [] => Ok result
  | x :: rest =>
      match parseItem (JSON_stringify x) with
      | Ok parsedItem => parse_items parseItem (S i) rest (result ++ [parsedItem])
      | Throw e => Throw (ArrayItemFailed i e)
      end
  end.

(** The loop of [ObjectSchema.parse], given the loop body. *)
Fixpoint run_fields (step : string -> schema -> field_outcome)
    (sh : list (string * schema)) (result : list (string * jval))
    : outcome (list (string * jval)) :=
  match sh with
  | [] => Ok result
  | (key, fs) :: rest =>
      match step key fs with
      | FieldSkipped => run_fields step rest result
      | FieldAssigned r => run_fields step rest (assign_property result key r)
      | FieldFailed e => Throw e
      end
  end.

Fixpoint parse (s : schema) (jsonString : json_text) {struct s} : outcome jval :=
  match jsonString with
  | JSONSyntaxError msg => Throw (InvalidJson msg)
  | JSONText parsed =>
      match s with
      | StringSchema m =>
          match parsed with
          | JStr _ =>
              if runValidation m parsed then Ok parsed
              else Throw (ValidationFailed parsed)
          | _ => Throw (TypeMismatch "string" (typeof parsed))
          end
      | NumberSchema m =>
          match parsed with
          | JNum _ =>
              if runValidation m parsed then Ok parsed
              else Throw (ValidationFailed parsed)
          | _ => Throw (TypeMismatch "number" (typeof parsed))
          end
      | BooleanSchema m =>
          match parsed with
          | JBool _ =>
              if runValidation m parsed then Ok parsed
              else Throw (ValidationFailed parsed)
          | _ => Throw (TypeMismatch "boolean" (typeof parsed))
          end
      | ArraySchema itemSchema m =>
          match parsed with
          | JArr xs =>
              result <- parse_items (parse itemSchema) 0 xs [] ;;
              if runValidation m (JArr result) then Ok (JArr result)
              else Throw (ArrayValidationFailed (JArr result))
          | _ => Throw (TypeMismatch "array" (typeof parsed))
          end
      | ObjectSchema shape m =>
          match parsed with
          | JObj parsedObj =>
              result <-
                run_fields
                  (fun key fs =>
                     field_step (parse fs) (isOptional (schema_meta fs)) parsedObj key)
                  shape [] ;;
              if runValidation m (JObj result) then Ok (JObj result)
              else Throw (ObjectValidationFailed (JObj result))
          | _ =>
              Throw (TypeMismatch "object"
                       (match parsed with JArr _ => "array" | _ => typeof parsed end))
          end
      end
  end.

(** The loop body of [ObjectSchema.parse] on the parsed input object. *)
Definition object_step (parsedObj : list (string * jval)) (key : string)
    (fs : schema) : field_outcome :=
  field_step (parse fs) (isOptional (schema_meta fs)) parsedObj key.

(** ** Property order and conformance *)

(** The enumeration order of two distinct keys of one object. *)
Definition key_ltb (k1 k2 : string) : bool :=
  match array_index k1, array_index k2 with
  | Some a, Some b => (a <? b)%N
  | Some _, None => true
  | None, Some _ => false
  | None, None => true
  end.

Fixpoint strictly_ordered (ks : list string) : bool :=
  match ks with
  | [] => true
  | k :: rest => forallb (key_ltb k) rest && strictly_ordered rest
  end.

Fixpoint nodupb (ks : list string) : bool :=
  match ks with
  | [] => true
  | k :: rest => negb (existsb (String.eqb k) rest) && nodupb rest
  end.

(** The key list of an object is in enumeration order and has no repeats:
    every object's [Object.entries] keys satisfy this. *)
Definition property_order_ok (ks : list string) : bool :=
  strictly_ordered ks && nodupb ks.

(** Every shape of the schema tree is an object's key list, and no declared
    key is a property name of [Object.prototype]. *)
Fixpoint wf_schema (s : schema) : bool :=
  match s with
  | ArraySchema item _ => wf_schema item
  | ObjectSchema shape _ =>
      property_order_ok (map fst shape)
      && forallb (fun k => negb (inherited_key k)) (map fst shape)
      && forallb (fun e => wf_schema (snd e)) shape
  | _ => true
  end.

(** A value conforms to a schema: it has the schema's shape, it has every
    required field, and every validator accepts its node's value. *)
Fixpoint conforms (s : schema) (v : jval) : bool :=
  match s, v with
  | StringSchema m, JStr _ => runValidation m v
  | NumberSchema m, JNum _ => runValidation m v
  | BooleanSchema m, JBool _ => runValidation m v
  | ArraySchema item m, JArr xs => forallb (conforms item) xs && runValidation m v
  | ObjectSchema shape m, JObj ps =>
      forallb (fun e =>
                 match own_lookup ps (fst e) with
                 | Some x => conforms (snd e) x
                 | None => isOptional (schema_meta (snd e))
                 end) shape
      && forallb (fun e => has_own shape (fst e)) ps
      && runValidation m v
  | _, _ => false
  end.

Fixpoint list_string_eqb (xs ys : list string) : bool :=
  match xs, ys with
  | [], [] => true
  | x :: xs', y :: ys' => String.eqb x y && list_string_eqb xs' ys'
  | _, _ => false
  end.

(** A value survives [JSON.stringify] unchanged and lists the properties of
    each object in the declaration order of its schema: its numbers are
    finite and not [-0], and each object's keys are the declared keys it has, in
    declaration order. *)
Fixpoint encodable (s : schema) (v : jval) : bool :=
  match s, v with
  | NumberSchema _, JNum (Finite _) => true
  | NumberSchema _, JNum _ => false
  | ArraySchema item _, JArr xs => forallb (encodable item) xs
  | ObjectSchema shape _, JObj ps =>
      list_string_eqb (map fst ps) (filter (has_own ps) (map fst shape))
      && forallb (fun e =>
                    match own_lookup ps (fst e) with
                    | Some x => encodable (snd e) x
                    | None => true
                    end) shape
  | _, _ => true
  end.

(** The own properties of [ps] with keys [ks], in the order of [ks]. *)
Definition own_fields (ps : list (string * jval)) (ks : list string)
  : list (string * jval) :=
  flat_map (fun k => match own_lookup ps k with
                     | Some x => [(k, x)]
                     | None => []
                     end) ks.



(** A key that is an array index, and its numeric value. *)
Definition is_index (k : string) : bool :=
  match array_index k with Some _ => true | None => false end.

Definition index_of (k : string) : N :=
  match array_index k with Some n => n | None => 0%N end.

(** Entries in ascending numeric order of their (array-index) keys. *)
Definition index_le {A} (e1 e2 : string * A) : Prop :=
  (index_of (fst e1) <= index_of (fst e2))%N.

(** The own properties the field loop creates on [result], given the loop
    body [step], in loop order: the assigned fields, except [__proto__]. *)
Fixpoint collect (step : string -> schema -> field_outcome)
    (sh : list (string * schema)) : outcome (list (string * jval)) :=
  match sh with
  | [] => Ok []
  | (key, fs) :: rest =>
      match step key fs with
      | FieldSkipped => collect step rest
      | FieldAssigned r =>
          l <- collect step rest ;;
          Ok (if String.eqb key "__proto__" then l else (key, r) :: l)
      | FieldFailed e => Throw e
      end
  end.

(** A field is materialized on the result when the [in] test passes and the
    assignment creates an own property. *)
Definition materialized (parsedObj : list (string * jval)) (key : string) : bool :=
  js_in parsedObj key && negb (String.eqb key "__proto__").

(** The text [stringify] puts before the hint comment. *)
Definition base_type (s : schema) : string :=
  match s with
  | StringSchema _ => "string"
  | NumberSchema _ => "number"
  | BooleanSchema _ => "boolean"
  | ArraySchema item _ => "[" ++ stringify item ++ "]"
  | ObjectSchema shape _ =>
      "{ " ++ String.concat ", " (map (fun '(key, fs) => key ++ ": " ++ stringify fs) shape)
      ++ " }"
  end.

(** The kind a schema's type check expects, as in its mismatch message. *)
Definition expected_kind (s : schema) : string :=
  match s with
  | StringSchema _ => "string"
  | NumberSchema _ => "number"
  | BooleanSchema _ => "boolean"
  | ArraySchema _ _ => "array"
  | ObjectSchema _ _ => "object"
  end.

Definition step_ok (o : field_outcome) : Prop :=
  match o with FieldFailed _ => False | _ => True end.

(** Induction on schemas, through the fields of an object shape. *)
Section SchemaInd.
Variable P : schema -> Prop.
Hypothesis HStr : forall m, P (StringSchema m).
Hypothesis HNum : forall m, P (NumberSchema m).
Hypothesis HBool : forall m, P (BooleanSchema m).
Hypothesis HArr : forall item m, P item -> P (ArraySchema item m).
Hypothesis HObj : forall shape m, Forall (fun e => P (snd e)) shape ->
                                  P (ObjectSchema shape m).

Fixpoint schema_ind' (s : schema) : P s :=
  match s with
  | StringSchema m => HStr m
  | NumberSchema m => HNum m
  | BooleanSchema m => HBool m
  | ArraySchema item m => HArr item m (schema_ind' item)
  | ObjectSchema shape m =>
      HObj shape m
        ((fix go (sh : list (string * schema)) : Forall (fun e => P (snd e)) sh :=
            match sh with
            | [] => Forall_nil _
            | e :: rest => Forall_cons e (schema_ind' (snd e)) (go rest)
            end) shape)
  end.
End SchemaInd.

(** Every number in a value is finite and not [-0]: the numbers that
    [JSON.stringify] writes so that [JSON.parse] reads them back unchanged. *)
Fixpoint stable_numbers (v : jval) : bool :=
  match v with
  | JNum (Finite _) => true
  | JNum _ => false
  | JArr xs => forallb stable_numbers xs
  | JObj ps => forallb (fun e => stable_numbers (snd e)) ps
  | _ => true
  end.

(** The schema tree with every [isOptional] flag reset. *)
Fixpoint clear_optional (s : schema) : schema :=
  let clear m := {| validationFn := validationFn m; isOptional := false |} in
  match s with
  | StringSchema m => StringSchema (clear m)
  | NumberSchema m => NumberSchema (clear m)
  | BooleanSchema m => BooleanSchema (clear m)
  | ArraySchema item m => ArraySchema (clear_optional item) (clear m)
  | ObjectSchema shape m =>
      ObjectSchema (map (fun e => (fst e, clear_optional (snd e))) shape) (clear m)
  end.

(** The schema tree with no validator and no optional flag anywhere. *)
Fixpoint strip_meta (s : schema) : schema :=
  match s with
  | StringSchema _ => StringSchema default_meta
  | NumberSchema _ => NumberSchema default_meta
  | BooleanSchema _ => BooleanSchema default_meta
  | ArraySchema item _ => ArraySchema (strip_meta item) default_meta
  | ObjectSchema shape _ =>
      ObjectSchema (map (fun e => (fst e, strip_meta (snd e))) shape) default_meta
  end.

(** The version of the schema classes in [src/src/schema.ts]: each class
    inlines its hint comment, which shows only the validator, and the object
    loop has no optional case. *)
Module Legacy.

(** [`${baseType} /* ${fnString} */`] when a validator is attached. *)
Definition with_validator_hint (m : meta) (baseType : string) : string :=
  match validationFn m with
  | Some f => baseType ++ " /* " ++ fn_source f ++ " */"
  | None => baseType
  end.

Fixpoint stringify (s : schema) : string :=
  match s with
  | StringSchema m => with_validator_hint m "string"
  | NumberSchema m => with_validator_hint m "number"
  | BooleanSchema m => with_validator_hint m "boolean"
  | ArraySchema item m => with_validator_hint m ("[" ++ stringify item ++ "]")
  | ObjectSchema shape m =>
      let entries := map (fun '(key, fs) => key ++ ": " ++ stringify fs) shape in
      with_validator_hint m ("{ " ++ String.concat ", " entries ++ " }")
  end.

(** The body of the field loop: a key not [in] the input always throws. *)
Definition field_step (child : json_text -> outcome jval)
    (parsedObj : list (string * jval)) (key : string) : field_outcome :=
  if negb (js_in parsedObj key) then FieldFailed (MissingRequiredProperty key)
  else
    match child (field_text parsedObj key) with
    | Ok r => FieldAssigned r
    | Throw e => FieldFailed (PropertyFailed key e)
    end.

Fixpoint parse (s : schema) (jsonString : json_text) {struct s} : outcome jval :=
  match jsonString with
  | JSONSyntaxError msg => Throw (InvalidJson msg)
  | JSONText parsed =>
      match s with
      | StringSchema m =>
          match parsed with
          | JStr _ =>
              if runValidation m parsed then Ok parsed
              else Throw (ValidationFailed parsed)
          | _ => Throw (TypeMismatch "string" (typeof parsed))
          end
      | NumberSchema m =>
          match parsed with
          | JNum _ =>
              if runValidation m parsed then Ok parsed
              else Throw (ValidationFailed parsed)
          | _ => Throw (TypeMismatch "number" (typeof parsed))
          end
      | BooleanSchema m =>
          match parsed with
          | JBool _ =>
              if runValidation m parsed then Ok parsed
              else Throw (ValidationFailed parsed)
          | _ => Throw (TypeMismatch "boolean" (typeof parsed))
          end
      | ArraySchema itemSchema m =>
          match parsed with
          | JArr xs =>
              result <- parse_items (parse itemSchema) 0 xs [] ;;
              if runValidation m (JArr result) then Ok (JArr result)
              else Throw (ArrayValidationFailed (JArr result))
          | _ => Throw (TypeMismatch "array" (typeof parsed))
          end
      | ObjectSchema shape m =>
          match parsed with
          | JObj parsedObj =>
              result <-
                run_fields (fun key fs => field_step (parse fs) parsedObj key) shape [] ;;
              if runValidation m (JObj result) then Ok (JObj result)
              else Throw (ObjectValidationFailed (JObj result))
          | _ =>
              Throw (TypeMismatch "object"
                       (match parsed with JArr _ => "array" | _ => typeof parsed end))
          end
      end
  end.

End Legacy.

(** The first version of the schema classes ([src/unnamed/part_007]): only a
    [toString] rendering, with no hints. *)
Module Initial.

Fixpoint toString (s : schema) : string :=
  match s with
  | StringSchema _ => "string"
  | NumberSchema _ => "number"
  | BooleanSchema _ => "boolean"
  | ArraySchema item _ => "[" ++ toString item ++ "]"
  | ObjectSchema shape _ =>
      let entries := map (fun '(key, fs) => key ++ ": " ++ toString fs) shape in
      "{ " ++ String.concat ", " entries ++ " }"
  end.

End Initial.

(** The round-trip property of a schema, by induction on the schema tree. *)
Definition roundtrip_prop (s : schema) : Prop :=
  forall v, wf_schema s = true -> conforms s v = true -> encodable s v = true ->
            json_reread v = v /\ parse s (JSONText v) = Ok v.

Example parse_string_ok : parse s_string (JSONText (JStr "John")) = Ok (JStr "John").
Proof. reflexivity. Qed.

Example parse_scenario3 :
  parse (s_array s_number)
        (JSONText (JArr [JNum (Finite 1); JStr "x"; JNum (Finite 3)]))
  = Throw (ArrayItemFailed 1 (TypeMismatch "number" "string")).
Proof. reflexivity. Qed.

Example parse_scenario4 :
  parse (s_object [("name", s_string); ("age", optional s_number)])
        (JSONText (JObj [("name", JStr "John")]))
  = Ok (JObj [("name", JStr "John")]).
Proof. reflexivity. Qed.

Example stringify_scenario4 :
  stringify (s_object [("name", s_string); ("age", optional s_number)])
  = "{ name: string, age: number /* optional */ }".
Proof. reflexivity. Qed.

Example parse_scenario5 :
  parse (s_object [("name", s_string); ("age", s_number)])
        (JSONText (JObj [("age", JNum (Finite 30))]))
  = Throw (MissingRequiredProperty "name").
Proof. reflexivity. Qed.

(** ** Loop lemmas *)

Lemma parse_items_ext (p q : json_text -> outcome jval) i xs acc :
  (forall t, p t = q t) -> parse_items p i xs acc = parse_items q i xs acc.
Proof.
  intros Hpq. revert i acc.
  induction xs as [|x xs IH]; intros i acc; simpl; [reflexivity|].
  rewrite Hpq. destruct (q (JSON_stringify x)); [apply IH | reflexivity].
Qed.

Lemma parse_items_first_failure p i pre x post acc e :
  Forall (fun y => exists r, p (JSON_stringify y) = Ok r) pre ->
  p (JSON_stringify x) = Throw e ->
  parse_items p i (pre ++ x :: post) acc = Throw (ArrayItemFailed (i + length pre) e).
Proof.
  intros Hpre Hx. revert i acc.
  induction Hpre as [|y pre [r Hr] _ IH]; intros i acc; simpl.
  - rewrite Hx, Nat.add_0_r. reflexivity.
  - rewrite Hr, IH. f_equal. f_equal. lia.
Qed.

Lemma run_fields_first_failure step pre key fs post acc e :
  Forall (fun e' => step_ok (step (fst e') (snd e'))) pre ->
  step key fs = FieldFailed e ->
  run_fields step (pre ++ (key, fs) :: post) acc = Throw e.
Proof.
  intros Hpre Hk. revert acc.
  induction Hpre as [|[k' fs'] pre Hok _ IH]; intros acc; simpl.
  - rewrite Hk. reflexivity.
  - simpl in Hok. destruct (step k' fs'); [apply IH | apply IH | contradiction].
Qed.

Lemma parse_object_eq shape m parsedObj :
  parse (ObjectSchema shape m) (JSONText (JObj parsedObj)) =
  (result <- run_fields (object_step parsedObj) shape [] ;;
   if runValidation m (JObj result) then Ok (JObj result)
   else Throw (ObjectValidationFailed (JObj result))).
Proof. reflexivity. Qed.

Lemma parse_array_eq itemSchema m xs :
  parse (ArraySchema itemSchema m) (JSONText (JArr xs)) =
  (result <- parse_items (parse itemSchema) 0 xs [] ;;
   if runValidation m (JArr result) then Ok (JArr result)
   else Throw (ArrayValidationFailed (JArr result))).
Proof. reflexivity. Qed.

Lemma parse_null_mismatch s :
  parse s (JSONText JNull) = Throw (TypeMismatch (expected_kind s) "object").
Proof. destruct s; reflexivity. Qed.

(** ** Claims *)

(** C3: parsing is fail-fast.  For an array, when the elements before
    index [length pre] parse and the element [x] there fails with [e], the
    whole parse fails with [e] wrapped with that index, whatever the later
    elements are.  For an object, when the declared fields before [key] pass
    their loop step and [key] is present ([key in parsedObj]) and its value
    fails with [e], the whole parse fails with [e] wrapped with [key],
    whatever the later declared fields and their inputs are. *)
Theorem C3_fail_fast :
  (forall itemSchema m pre x post e,
      Forall (fun y => exists r, parse itemSchema (JSON_stringify y) = Ok r) pre ->
      parse itemSchema (JSON_stringify x) = Throw e ->
      parse (ArraySchema itemSchema m) (JSONText (JArr (pre ++ x :: post)))
      = Throw (ArrayItemFailed (length pre) e))
  /\
  (forall pre key fs post m parsedObj e,
      Forall (fun e' => step_ok (object_step parsedObj (fst e') (snd e'))) pre ->
      js_in parsedObj key = true ->
      parse fs (field_text parsedObj key) = Throw e ->
      parse (ObjectSchema (pre ++ (key, fs) :: post) m) (JSONText (JObj parsedObj))
      = Throw (PropertyFailed key e)).
Proof.
  split.
  - intros itemSchema m pre x post e Hpre Hx.
    rewrite parse_array_eq, (parse_items_first_failure _ 0 pre x post [] e Hpre Hx).
    reflexivity.
  - intros pre key fs post m parsedObj e Hpre Hin He.
    rewrite parse_object_eq.
    rewrite (run_fields_first_failure _ pre key fs post [] (PropertyFailed key e) Hpre).
    + reflexivity.
    + unfold object_step, field_step. rewrite Hin, He. reflexivity.
Qed.

(** C4: [stringify] of every variant is the shared [buildStringifyResult]
    applied to the variant's base text; that routine appends
    [" /* " + hints + " */"], the hints being the validator's source text and
    then ["optional"], joined by [", "], and nothing when there is neither;
    and [validate] and [optional] commute. *)
Theorem C4_stringify_hints :
  (forall s, stringify s = buildStringifyResult (schema_meta s) (base_type s))
  /\
  (forall m baseType,
      buildStringifyResult m baseType =
      match validationFn m, isOptional m with
      | None, false => baseType
      | Some f, false => baseType ++ " /* " ++ fn_source f ++ " */"
      | None, true => baseType ++ " /* optional */"
      | Some f, true => baseType ++ " /* " ++ (fn_source f ++ ", optional") ++ " */"
      end)
  /\
  (forall f s, validate f (optional s) = optional (validate f s)).
Proof.
  split; [|split].
  - intros s; destruct s; reflexivity.
  - intros [[f|] [|]] baseType; reflexivity.
  - intros f s; destruct s; reflexivity.
Qed.

(** C5: [null] fails every type check.  The primitive schemas report it as
    [object]; an object schema reports an array as [array] and any other
    non-object as its [typeof]; a declared field whose value is [null] is
    present: its loop step fails the field's type check, optional or not. *)
Theorem C5_null_type_mismatch :
  (forall m,
      parse (StringSchema m) (JSONText JNull) = Throw (TypeMismatch "string" "object")
      /\ parse (NumberSchema m) (JSONText JNull) = Throw (TypeMismatch "number" "object")
      /\ parse (BooleanSchema m) (JSONText JNull) = Throw (TypeMismatch "boolean" "object"))
  /\
  (forall shape m xs,
      parse (ObjectSchema shape m) (JSONText (JArr xs)) = Throw (TypeMismatch "object" "array"))
  /\
  (forall shape m v,
      (forall xs, v <> JArr xs) -> (forall ps, v <> JObj ps) ->
      parse (ObjectSchema shape m) (JSONText v) = Throw (TypeMismatch "object" (typeof v)))
  /\
  (forall parsedObj key fs,
      own_lookup parsedObj key = Some JNull ->
      object_step parsedObj key fs
      = FieldFailed (PropertyFailed key (TypeMismatch (expected_kind fs) "object"))).
Proof.
  split; [|split; [|split]].
  - intros m; repeat split.
  - intros shape m xs; reflexivity.
  - intros shape m v Harr Hobj.
    destruct v; try reflexivity.
    + exfalso; eapply Harr; reflexivity.
    + exfalso; eapply Hobj; reflexivity.
  - intros parsedObj key fs Hnull.
    unfold object_step, field_step, js_in, has_own, field_text.
    rewrite Hnull. simpl. rewrite parse_null_mismatch. reflexivity.
Qed.

(** C8: the optional flag of a schema has no effect on its own [parse], nor
    on the [parse] of an array whose item schema it is. *)
Theorem C8_optional_no_parse_effect :
  (forall s t, parse (optional s) t = parse s t)
  /\
  (forall itemSchema m t,
      parse (ArraySchema (optional itemSchema) m) t = parse (ArraySchema itemSchema m) t).
Proof.
  assert (Hopt : forall s t, parse (optional s) t = parse s t)
    by (intros s [v|msg]; destruct s; reflexivity).
  split; [exact Hopt|].
  intros itemSchema m [v|msg]; [|reflexivity].
  destruct v; try reflexivity.
  rewrite !parse_array_eq, (parse_items_ext _ (parse itemSchema)); [reflexivity|].
  apply Hopt.
Qed.

(** C9: an array schema parses [[]] to the empty array when its own
    validator accepts the empty array, whatever its item schema. *)
Theorem C9_empty_array :
  forall itemSchema m,
    parse (ArraySchema itemSchema m) (JSONText (JArr []))
    = if runValidation m (JArr []) then Ok (JArr [])
      else Throw (ArrayValidationFailed (JArr [])).
Proof. reflexivity. Qed.

(** ** Property order lemmas *)

Local Open Scope list_scope.

Lemma has_own_existsb {A} (ps : list (string * A)) k :
  has_own ps k = existsb (String.eqb k) (map fst ps).
Proof.
  unfold has_own. induction ps as [|[k' v] ps IH]; simpl; [reflexivity|].
  destruct (String.eqb k k'); [reflexivity | exact IH].
Qed.

Lemma add_property_last {A} (acc : list (string * A)) k v :
  forallb (fun k' => key_ltb k' k) (map fst acc) = true ->
  add_property acc k v = acc ++ [(k, v)].
Proof.
  unfold add_property. destruct (array_index k) as [n|] eqn:Hk; [|reflexivity].
  induction acc as [|[k' v'] acc IH]; simpl; intros H; [reflexivity|].
  apply andb_prop in H as [H1 H2].
  unfold key_ltb in H1. rewrite Hk in H1.
  destruct (array_index k') as [n'|]; [|discriminate].
  rewrite H1, IH by exact H2. reflexivity.
Qed.

Lemma strictly_ordered_before l1 k l2 :
  strictly_ordered (l1 ++ k :: l2) = true ->
  forallb (fun k' => key_ltb k' k) l1 = true.
Proof.
  induction l1 as [|a l1 IH]; simpl; [reflexivity|].
  intros H. apply andb_prop in H as [H1 H2].
  rewrite forallb_app in H1. simpl in H1.
  apply andb_prop in H1 as [_ H1]. apply andb_prop in H1 as [H1 _].
  rewrite H1, IH by exact H2. reflexivity.
Qed.

Lemma strictly_ordered_remove l1 k l2 :
  strictly_ordered (l1 ++ k :: l2) = true -> strictly_ordered (l1 ++ l2) = true.
Proof.
  induction l1 as [|a l1 IH]; simpl; intros H.
  - apply andb_prop in H as [_ H]. exact H.
  - apply andb_prop in H as [H1 H2].
    rewrite forallb_app in H1 |- *. simpl in H1.
    apply andb_prop in H1 as [H1a H1b]. apply andb_prop in H1b as [_ H1b].
    rewrite H1a, H1b, IH by exact H2. reflexivity.
Qed.

Lemma strictly_ordered_filter f l :
  strictly_ordered l = true -> strictly_ordered (filter f l) = true.
Proof.
  induction l as [|a l IH]; simpl; [reflexivity|].
  intros H. apply andb_prop in H as [H1 H2].
  destruct (f a); simpl; rewrite IH by exact H2; [rewrite andb_true_r|reflexivity].
  rewrite forallb_forall in H1 |- *. intros x Hx.
  apply filter_In in Hx as [Hx _]. rewrite H1 by exact Hx. reflexivity.
Qed.

Lemma nodupb_not_before l1 k l2 :
  nodupb (l1 ++ k :: l2) = true -> existsb (String.eqb k) l1 = false.
Proof.
  induction l1 as [|a l1 IH]; simpl; [reflexivity|].
  intros H. apply andb_prop in H as [H1 H2].
  rewrite IH by exact H2.
  destruct (String.eqb k a) eqn:E; [|reflexivity].
  apply String.eqb_eq in E. subst a.
  rewrite existsb_app in H1. simpl in H1. rewrite String.eqb_refl in H1.
  rewrite orb_true_r in H1. discriminate.
Qed.

Lemma nodupb_remove l1 k l2 :
  nodupb (l1 ++ k :: l2) = true -> nodupb (l1 ++ l2) = true.
Proof.
  induction l1 as [|a l1 IH]; simpl; intros H.
  - apply andb_prop in H as [_ H]. exact H.
  - apply andb_prop in H as [H1 H2].
    rewrite existsb_app in H1 |- *. simpl in H1.
    destruct (existsb (String.eqb a) l1); [discriminate|].
    destruct (String.eqb a k); [discriminate|].
    simpl in H1 |- *. rewrite H1, IH by exact H2. reflexivity.
Qed.

Lemma nodupb_filter f l : nodupb l = true -> nodupb (filter f l) = true.
Proof.
  induction l as [|a l IH]; simpl; [reflexivity|].
  intros H. apply andb_prop in H as [H1 H2].
  destruct (f a); simpl; rewrite IH by exact H2; [rewrite andb_true_r|reflexivity].
  destruct (existsb (String.eqb a) (filter f l)) eqn:E; [|reflexivity].
  apply existsb_exists in E as [x [Hx Hax]].
  apply filter_In in Hx as [Hx _].
  assert (existsb (String.eqb a) l = true) by (apply existsb_exists; eauto).
  rewrite H in H1. discriminate.
Qed.

(** The field loop appends the collected fields to [result] when the
    declared keys are an object's key list. *)
Lemma run_fields_collect step sh acc :
  strictly_ordered (map fst acc ++ map fst sh) = true ->
  nodupb (map fst acc ++ map fst sh) = true ->
  run_fields step sh acc = (l <- collect step sh ;; Ok (acc ++ l)).
Proof.
  revert acc. induction sh as [|[k fs] sh IH]; intros acc Hord Hnd; simpl.
  - rewrite app_nil_r. reflexivity.
  - simpl in Hord, Hnd.
    pose proof (strictly_ordered_remove _ _ _ Hord) as Hord'.
    pose proof (nodupb_remove _ _ _ Hnd) as Hnd'.
    destruct (step k fs) as [|r|e]; [apply IH; assumption | | reflexivity].
    unfold assign_property.
    rewrite has_own_existsb, (nodupb_not_before _ _ _ Hnd).
    destruct (String.eqb k "__proto__").
    + rewrite IH by assumption. destruct (collect step sh); reflexivity.
    + rewrite add_property_last by exact (strictly_ordered_before _ _ _ Hord).
      rewrite IH.
      * destruct (collect step sh); simpl; [|reflexivity].
        rewrite <- app_assoc. reflexivity.
      * rewrite map_app, <- app_assoc. exact Hord.
      * rewrite map_app, <- app_assoc. exact Hnd.
Qed.

Lemma field_step_assigned child opt parsedObj key r :
  field_step child opt parsedObj key = FieldAssigned r -> js_in parsedObj key = true.
Proof.
  unfold field_step. destruct (js_in parsedObj key); [reflexivity|].
  simpl. destruct opt; discriminate.
Qed.

Lemma field_step_skipped child opt parsedObj key :
  field_step child opt parsedObj key = FieldSkipped -> js_in parsedObj key = false.
Proof.
  unfold field_step. destruct (js_in parsedObj key); [|reflexivity].
  simpl. destruct (child _); discriminate.
Qed.

Lemma collect_keys parsedObj sh l :
  collect (object_step parsedObj) sh = Ok l ->
  map fst l = filter (materialized parsedObj) (map fst sh).
Proof.
  revert l. induction sh as [|[k fs] sh IH]; intros l H; simpl in H |- *.
  - injection H as <-. reflexivity.
  - unfold materialized at 1.
    destruct (object_step parsedObj k fs) as [|r|e] eqn:Hstep.
    + apply field_step_skipped in Hstep. rewrite Hstep. apply IH, H.
    + apply field_step_assigned in Hstep. rewrite Hstep.
      destruct (collect (object_step parsedObj) sh) as [l'|e]; [|discriminate].
      simpl in H. injection H as <-.
      destruct (String.eqb k "__proto__"); simpl; [|f_equal]; apply IH; reflexivity.
    + discriminate.
Qed.

(** C10: a successful object parse returns its fields in the order of the
    schema's shape (its [Object.entries] order), not in input order: the
    result's keys are the declared keys, in declaration order, restricted to
    the fields materialized on it ([key in parsedObj], and not the
    [__proto__] accessor). *)
Theorem C10_result_in_declaration_order :
  forall shape m parsedObj r,
    property_order_ok (map fst shape) = true ->
    parse (ObjectSchema shape m) (JSONText (JObj parsedObj)) = Ok (JObj r) ->
    map fst r = filter (materialized parsedObj) (map fst shape).
Proof.
  intros shape m parsedObj r Hok H.
  apply andb_prop in Hok as [Hord Hnd].
  rewrite parse_object_eq, run_fields_collect in H by assumption.
  destruct (collect (object_step parsedObj) shape) as [l|e] eqn:Hc; [|discriminate].
  simpl in H. destruct (runValidation m (JObj l)); [|discriminate].
  injection H as <-. apply collect_keys, Hc.
Qed.

Lemma fold_define_property {A} (l acc : list (string * A)) :
  strictly_ordered (map fst acc ++ map fst l) = true ->
  nodupb (map fst acc ++ map fst l) = true ->
  fold_left (fun acc '(k, v) => define_property acc k v) l acc = acc ++ l.
Proof.
  revert acc. induction l as [|[k v] l IH]; intros acc Hord Hnd; simpl.
  - rewrite app_nil_r. reflexivity.
  - simpl in Hord, Hnd.
    unfold define_property.
    rewrite has_own_existsb, (nodupb_not_before _ _ _ Hnd).
    rewrite add_property_last by exact (strictly_ordered_before _ _ _ Hord).
    rewrite IH, <- app_assoc; [reflexivity| |];
      rewrite map_app, <- app_assoc; assumption.
Qed.

Lemma object_literal_ordered {A} (l : list (string * A)) :
  property_order_ok (map fst l) = true -> object_literal l = l.
Proof.
  intros H. apply andb_prop in H as [Hord Hnd].
  apply (fold_define_property l []); assumption.
Qed.

Lemma strictly_ordered_no_index ks :
  forallb (fun k => match array_index k with None => true | Some _ => false end) ks = true ->
  strictly_ordered ks = true.
Proof.
  induction ks as [|k ks IH]; simpl; [reflexivity|].
  intros H. apply andb_prop in H as [Hk H].
  rewrite IH by exact H. rewrite andb_true_r.
  apply forallb_forall. intros k' Hk'.
  rewrite forallb_forall in H. specialize (H k' Hk').
  unfold key_ltb. destruct (array_index k); [discriminate|].
  destruct (array_index k'); [discriminate | reflexivity].
Qed.

(** An absent declared key that [Object.prototype] does not provide is
    skipped when optional and reported missing otherwise, without running
    the field's schema. *)
Lemma field_step_absent child opt parsedObj key :
  has_own parsedObj key = false -> inherited_key key = false ->
  field_step child opt parsedObj key
  = if opt then FieldSkipped else FieldFailed (MissingRequiredProperty key).
Proof.
  intros Hown Hinh. unfold field_step, js_in. rewrite Hown, Hinh. reflexivity.
Qed.

Lemma run_fields_ext (step1 step2 : string -> schema -> field_outcome) sh acc :
  Forall (fun e => step1 (fst e) (snd e) = step2 (fst e) (snd e)) sh ->
  run_fields step1 sh acc = run_fields step2 sh acc.
Proof.
  intros H. revert acc.
  induction H as [|[k fs] sh Heq _ IH]; intros acc; simpl; [reflexivity|].
  simpl in Heq. rewrite Heq. destruct (step2 k fs); [apply IH | apply IH | reflexivity].
Qed.

(** Keys the schema does not declare do not affect the parse of an object:
    only the own values of the declared keys are read. *)
Lemma parse_object_undeclared_keys shape m ps ps' :
  Forall (fun e => own_lookup ps (fst e) = own_lookup ps' (fst e)) shape ->
  parse (ObjectSchema shape m) (JSONText (JObj ps))
  = parse (ObjectSchema shape m) (JSONText (JObj ps')).
Proof.
  intros H. rewrite !parse_object_eq.
  rewrite (run_fields_ext (object_step ps) (object_step ps')); [reflexivity|].
  eapply Forall_impl; [|exact H]. intros [k fs] Hk. simpl in Hk |- *.
  unfold object_step, field_step, js_in, has_own, field_text. rewrite Hk. reflexivity.
Qed.

(** C1 (code): the absence test is [key in parsedObj], which also sees the
    members of [Object.prototype].  A declared [constructor] field that is
    optional and absent is not skipped, and a required absent [toString]
    field is not reported as missing: both fail on [JSON.parse(undefined)]. *)
Theorem C1_inherited_key_not_absent :
  parse (s_object [("constructor", optional s_number)]) (JSONText (JObj []))
  = Throw (PropertyFailed "constructor" (InvalidJson undefined_not_valid_json))
  /\
  parse (s_object [("toString", s_string)]) (JSONText (JObj []))
  = Throw (PropertyFailed "toString" (InvalidJson undefined_not_valid_json)).
Proof. split; reflexivity. Qed.

(** C6 (code): [result[key] = ...] with the key [__proto__] goes to the
    inherited accessor and creates no own property, so a declared field
    [__proto__] present in the input is missing from the result. *)
Theorem C6_proto_field_dropped :
  parse (s_object [("__proto__", s_string)])
        (JSONText (JObj [("__proto__", JStr "x")]))
  = Ok (JObj []).
Proof. reflexivity. Qed.

(** C7 counterexample: the shape is an object, and an object enumerates its
    array-index keys first; constructed with [b] then ["1"], the schema is
    printed with ["1"] first. *)
Lemma C7_index_key_first :
  stringify (s_object [("b", s_string); ("1", s_number)]) = "{ 1: number, b: string }"
  /\ stringify (s_object [("b", s_string); ("1", s_number)]) <> "{ b: string, 1: number }".
Proof. split; [reflexivity | discriminate]. Qed.

Lemma insert_index_app {A} n k (v : A) idx named :
  match named with [] => True | (k', _) :: _ => is_index k' = false end ->
  insert_index n k v (idx ++ named) = insert_index n k v idx ++ named.
Proof.
  intros Hn. induction idx as [|[k' v'] idx IH]; simpl.
  - destruct named as [|[k' v'] named]; [reflexivity|]. simpl.
    unfold is_index in Hn. destruct (array_index k'); [discriminate | reflexivity].
  - destruct (array_index k') as [n'|]; [|reflexivity].
    destruct (n' <? n)%N; [rewrite IH; reflexivity | reflexivity].
Qed.

Lemma insert_index_perm {A} n k (v : A) l :
  Permutation (insert_index n k v l) ((k, v) :: l).
Proof.
  induction l as [|[k' v'] l IH]; simpl; [reflexivity|].
  destruct (array_index k'); [destruct (_ <? _)%N|]; try reflexivity.
  eapply perm_trans; [apply perm_skip, IH | apply perm_swap].
Qed.

Lemma insert_index_sorted {A} n k (v : A) l :
  array_index k = Some n ->
  Forall (fun e => is_index (fst e) = true) l ->
  StronglySorted index_le l ->
  StronglySorted index_le (insert_index n k v l).
Proof.
  intros Hk Hidx Hs. revert Hidx.
  induction Hs as [|e l Hs IH Hhd]; intros Hidx; simpl.
  - repeat constructor.
  - destruct e as [k' v'].
    inversion Hidx as [|? ? Hk' Hl]; subst. simpl in Hk'. unfold is_index in Hk'.
    destruct (array_index k') as [n'|] eqn:En'; [|discriminate].
    destruct (n' <? n)%N eqn:Hlt.
    + constructor; [apply IH, Hl|].
      apply Forall_forall. intros e He.
      apply (Permutation_in _ (insert_index_perm n k v l)) in He.
      destruct He as [<-|He].
      * unfold index_le, index_of; simpl. rewrite En', Hk. apply N.ltb_lt in Hlt. lia.
      * rewrite Forall_forall in Hhd. apply Hhd, He.
    + apply N.ltb_ge in Hlt.
      constructor; [constructor; assumption|].
      constructor.
      * unfold index_le, index_of; simpl. rewrite En', Hk. exact Hlt.
      * rewrite Forall_forall in Hhd |- *. intros e He. specialize (Hhd e He).
        unfold index_le, index_of in Hhd |- *; simpl in Hhd |- *.
        rewrite En' in Hhd. rewrite Hk. lia.
Qed.

Lemma filter_not_index_head {A} (l : list (string * A)) :
  match filter (fun e => negb (is_index (fst e))) l with
  | [] => True
  | (k', _) :: _ => is_index k' = false
  end.
Proof.
  induction l as [|[k v] l IH]; simpl; [exact I|].
  destruct (is_index k) eqn:E; simpl; [exact IH | exact E].
Qed.

(** Building an object property by property: the array-index keys are kept
    in ascending numeric order ahead of the other keys, which stay in
    creation order. *)
Lemma fold_define_property_split {A} (l p idx : list (string * A)) :
  nodupb (map fst (p ++ l)) = true ->
  Permutation idx (filter (fun e => is_index (fst e)) p) ->
  StronglySorted index_le idx ->
  exists idx',
    fold_left (fun acc '(k, v) => define_property acc k v) l
              (idx ++ filter (fun e => negb (is_index (fst e))) p)
    = idx' ++ filter (fun e => negb (is_index (fst e))) (p ++ l)
    /\ Permutation idx' (filter (fun e => is_index (fst e)) (p ++ l))
    /\ StronglySorted index_le idx'.
Proof.
  revert p idx. induction l as [|[k v] l IH]; intros p idx Hnd Hp Hs.
  - exists idx. rewrite !app_nil_r. auto.
  - assert (Hidx : Forall (fun e => is_index (fst e) = true) idx).
    { apply Forall_forall. intros e He. apply (Permutation_in _ Hp) in He.
      apply filter_In in He. apply He. }
    assert (Hfresh :
              has_own (idx ++ filter (fun e => negb (is_index (fst e))) p) k = false).
    { rewrite has_own_existsb. apply not_true_iff_false. intros Hin.
      apply existsb_exists in Hin as [k' [Hin Hk']]. apply String.eqb_eq in Hk'. subst k'.
      apply in_map_iff in Hin as [[k' v'] [Hk' Hin]]. simpl in Hk'. subst k'.
      assert (Hp' : In (k, v') p).
      { apply in_app_or in Hin as [Hin|Hin].
        - apply (Permutation_in _ Hp) in Hin. apply filter_In in Hin. apply Hin.
        - apply filter_In in Hin. apply Hin. }
      rewrite map_app in Hnd. cbn [map fst] in Hnd.
      pose proof (nodupb_not_before _ _ _ Hnd) as Hno.
      apply (in_map fst) in Hp'. simpl in Hp'.
      assert (existsb (String.eqb k) (map fst p) = true)
        by (apply existsb_exists; exists k; split; [exact Hp' | apply String.eqb_refl]).
      congruence. }
    assert (Happ : (p ++ [(k, v)]) ++ l = p ++ (k, v) :: l)
      by (rewrite <- app_assoc; reflexivity).
    cbn [fold_left].
    replace (define_property (idx ++ filter (fun e => negb (is_index (fst e))) p) k v)
      with (add_property (idx ++ filter (fun e => negb (is_index (fst e))) p) k v)
      by (unfold define_property; rewrite Hfresh; reflexivity).
    unfold add_property at 1.
    destruct (array_index k) as [n|] eqn:Hk.
    + assert (Hki : is_index k = true) by (unfold is_index; rewrite Hk; reflexivity).
      rewrite insert_index_app by apply filter_not_index_head.
      assert (Hf : filter (fun e => negb (is_index (fst e))) (p ++ [(k, v)])
                   = filter (fun e => negb (is_index (fst e))) p)
        by (rewrite filter_app; simpl; rewrite Hki, app_nil_r; reflexivity).
      destruct (IH (p ++ [(k, v)]) (insert_index n k v idx)) as [idx' [Heq [Hp' Hs']]].
      * rewrite Happ. exact Hnd.
      * rewrite filter_app. simpl. rewrite Hki.
        eapply perm_trans; [apply insert_index_perm|].
        eapply perm_trans; [apply perm_skip, Hp | apply Permutation_cons_append].
      * apply insert_index_sorted; assumption.
      * exists idx'. rewrite Hf, Happ in Heq. rewrite Happ in Hp'. auto.
    + assert (Hki : is_index k = false) by (unfold is_index; rewrite Hk; reflexivity).
      rewrite <- app_assoc.
      assert (Hf : filter (fun e => negb (is_index (fst e))) (p ++ [(k, v)])
                   = filter (fun e => negb (is_index (fst e))) p ++ [(k, v)])
        by (rewrite filter_app; simpl; rewrite Hki; reflexivity).
      destruct (IH (p ++ [(k, v)]) idx) as [idx' [Heq [Hp' Hs']]].
      * rewrite Happ. exact Hnd.
      * rewrite filter_app. simpl. rewrite Hki, app_nil_r. exact Hp.
      * exact Hs.
      * exists idx'. rewrite Hf, Happ in Heq. rewrite Happ in Hp'. auto.
Qed.

(** C7 (amended): [stringify] of an object schema is ["{ "], the entries
    [key: childStringify] joined by [", "] in the shape's enumeration order,
    [" }"], then the hint comment.  For a shape built from a literal with
    distinct keys, that order is: the array-index keys first, in ascending
    numeric order, then the other keys in construction order; when no key is
    an array index, it is the construction order. *)
Theorem C7_object_stringify :
  (forall (lit : list (string * schema)) m,
      nodupb (map fst lit) = true ->
      exists idx,
        stringify (ObjectSchema (object_literal lit) m)
        = buildStringifyResult m
            ("{ " ++ String.concat ", "
                 (map (fun '(key, fs) => key ++ ": " ++ stringify fs)
                      (app idx (filter (fun e => negb (is_index (fst e))) lit)))
             ++ " }")%string
        /\ Permutation idx (filter (fun e => is_index (fst e)) lit)
        /\ StronglySorted index_le idx)
  /\
  (forall lit : list (string * schema),
      nodupb (map fst lit) = true ->
      forallb (fun k => match array_index k with None => true | Some _ => false end)
              (map fst lit) = true ->
      object_literal lit = lit).
Proof.
  split.
  - intros lit m Hnd.
    destruct (fold_define_property_split lit [] [] Hnd (perm_nil _) (SSorted_nil _))
      as [idx [Heq [Hp Hs]]].
    exists idx. split; [|split; assumption].
    simpl in Heq. change (object_literal lit) with
      (fold_left (fun acc '(k, v) => define_property acc k v) lit []).
    simpl stringify. rewrite Heq. reflexivity.
  - intros lit Hnd Hidx.
    apply (fold_define_property lit []); [|exact Hnd].
    apply strictly_ordered_no_index, Hidx.
Qed.

(** ** Round trip *)

Lemma list_string_eqb_true xs ys : list_string_eqb xs ys = true -> xs = ys.
Proof.
  revert ys. induction xs as [|x xs IH]; intros [|y ys] H; simpl in H;
    try discriminate; [reflexivity|].
  apply andb_prop in H as [H1 H2]. apply String.eqb_eq in H1. subst y.
  f_equal. apply IH, H2.
Qed.

Lemma own_fields_filter ps ks : own_fields ps (filter (has_own ps) ks) = own_fields ps ks.
Proof.
  induction ks as [|k ks IH]; simpl; [reflexivity|].
  unfold has_own at 1. destruct (own_lookup ps k) eqn:E; simpl; rewrite ?E, IH; reflexivity.
Qed.

Lemma own_fields_skip k x rest ks :
  existsb (String.eqb k) ks = false -> own_fields ((k, x) :: rest) ks = own_fields rest ks.
Proof.
  induction ks as [|k' ks IH]; simpl; intros H; [reflexivity|].
  apply orb_false_elim in H as [H1 H2].
  rewrite String.eqb_sym, H1, IH by exact H2. reflexivity.
Qed.

Lemma own_fields_self ps : nodupb (map fst ps) = true -> own_fields ps (map fst ps) = ps.
Proof.
  induction ps as [|[k x] ps IH]; simpl; intros H; [reflexivity|].
  apply andb_prop in H as [H1 H2]. apply negb_true_iff in H1.
  rewrite String.eqb_refl. simpl. f_equal.
  change (own_fields ((k, x) :: ps) (map fst ps) = ps).
  rewrite own_fields_skip by exact H1. apply IH, H2.
Qed.

Lemma parse_items_all_ok p i xs acc :
  Forall (fun x => p (JSON_stringify x) = Ok x) xs ->
  parse_items p i xs acc = Ok (acc ++ xs).
Proof.
  intros H. revert i acc.
  induction H as [|x xs Hx _ IH]; intros i acc; simpl.
  - rewrite app_nil_r. reflexivity.
  - rewrite Hx, IH, <- app_assoc. reflexivity.
Qed.

Lemma collect_cons step key fs sh :
  collect step ((key, fs) :: sh) =
  match step key fs with
  | FieldSkipped => collect step sh
  | FieldAssigned r =>
      l <- collect step sh ;;
      Ok (if String.eqb key "__proto__" then l else (key, r) :: l)
  | FieldFailed e => Throw e
  end.
Proof. reflexivity. Qed.

Lemma collect_roundtrip ps sh :
  Forall (fun e => roundtrip_prop (snd e)) sh ->
  forallb (fun k => negb (inherited_key k)) (map fst sh) = true ->
  forallb (fun e => wf_schema (snd e)) sh = true ->
  forallb (fun e => match own_lookup ps (fst e) with
                    | Some x => conforms (snd e) x
                    | None => isOptional (schema_meta (snd e))
                    end) sh = true ->
  forallb (fun e => match own_lookup ps (fst e) with
                    | Some x => encodable (snd e) x
                    | None => true
                    end) sh = true ->
  collect (object_step ps) sh = Ok (own_fields ps (map fst sh))
  /\ map (fun '(k, x) => (k, json_reread x)) (own_fields ps (map fst sh))
     = own_fields ps (map fst sh).
Proof.
  induction 1 as [|[k fs] sh Hfs _ IH]; cbn [map fst snd forallb]; intros Hinh Hwf Hc He;
    [split; reflexivity|].
  unfold roundtrip_prop in Hfs. cbn [snd] in Hfs.
  apply andb_prop in Hinh as [Hk Hinh]. apply negb_true_iff in Hk.
  apply andb_prop in Hwf as [Hwfs Hwf].
  apply andb_prop in Hc as [Hcs Hc].
  apply andb_prop in He as [Hes He].
  destruct (IH Hinh Hwf Hc He) as [Hcol Hmap].
  rewrite collect_cons.
  unfold own_fields at 1 2 3; cbn [flat_map]; fold (own_fields ps (map fst sh)).
  destruct (own_lookup ps k) as [x|] eqn:Hx.
  - destruct (Hfs x Hwfs Hcs Hes) as [Hrr Hparse].
    assert (Hstep : object_step ps k fs = FieldAssigned x).
    { unfold object_step, field_step, js_in, has_own, field_text.
      rewrite Hx, Hk. simpl. unfold JSON_stringify. rewrite Hrr, Hparse. reflexivity. }
    rewrite Hstep, Hcol. simpl.
    destruct (String.eqb k "__proto__") eqn:Ep.
    + apply String.eqb_eq in Ep. subst k. discriminate.
    + split; [reflexivity|]. rewrite Hrr. f_equal. exact Hmap.
  - assert (Hstep : object_step ps k fs = FieldSkipped).
    { unfold object_step, field_step, js_in, has_own.
      rewrite Hx, Hk. simpl. rewrite Hcs. reflexivity. }
    rewrite Hstep. split; [exact Hcol | exact Hmap].
Qed.

Lemma roundtrip_core : forall s, roundtrip_prop s.
Proof.
  apply schema_ind'; unfold roundtrip_prop.
  - intros m [| | | |xs|ps] _ Hc _; try discriminate.
    split; [reflexivity|]. simpl in Hc |- *. rewrite Hc. reflexivity.
  - intros m [| |[z| | | |]| |xs|ps] _ Hc He; try discriminate.
    split; [reflexivity|]. simpl in Hc |- *. rewrite Hc. reflexivity.
  - intros m [|b| | |xs|ps] _ Hc _; try discriminate.
    split; [reflexivity|]. simpl in Hc |- *. rewrite Hc. reflexivity.
  - intros item m IH [| | | |xs|ps] Hwf Hc He; try discriminate.
    simpl in Hwf, Hc, He. apply andb_prop in Hc as [Hc Hv].
    rewrite forallb_forall in Hc, He.
    assert (Hx : forall x, In x xs -> json_reread x = x /\ parse item (JSONText x) = Ok x)
      by (intros x Hin; apply IH; auto).
    split.
    + simpl. f_equal. rewrite (map_ext_in _ (fun x => x)), map_id; [reflexivity|].
      intros x Hin. apply Hx, Hin.
    + rewrite parse_array_eq, parse_items_all_ok.
      * simpl. rewrite Hv. reflexivity.
      * apply Forall_forall. intros x Hin. unfold JSON_stringify.
        destruct (Hx x Hin) as [-> ->]. reflexivity.
  - intros shape m IH [| | | |xs|ps] Hwf Hc He; try discriminate.
    simpl in Hwf, Hc, He.
    apply andb_prop in Hwf as [Hwf Hwfs]. apply andb_prop in Hwf as [Hord Hinh].
    apply andb_prop in Hc as [Hc Hv]. apply andb_prop in Hc as [Hc _].
    apply andb_prop in He as [Hkeys He]. apply list_string_eqb_true in Hkeys.
    destruct (collect_roundtrip ps shape IH Hinh Hwfs Hc He) as [Hcol Hmap].
    pose proof Hord as Hord'. apply andb_prop in Hord' as [Hso Hnd].
    assert (Hps : own_fields ps (map fst shape) = ps).
    { rewrite <- own_fields_filter, <- Hkeys. apply own_fields_self.
      rewrite Hkeys. apply nodupb_filter, Hnd. }
    rewrite Hps in Hcol, Hmap.
    split.
    + simpl. rewrite Hmap. f_equal. apply object_literal_ordered.
      unfold property_order_ok. rewrite Hkeys.
      rewrite strictly_ordered_filter, nodupb_filter by assumption. reflexivity.
    + rewrite parse_object_eq, run_fields_collect by assumption.
      rewrite Hcol. simpl. rewrite Hv. reflexivity.
Qed.



(** ** What a successful parse returns *)

Lemma parse_items_ok p i xs acc r :
  parse_items p i xs acc = Ok r ->
  exists l, r = acc ++ l /\ Forall2 (fun x y => p (JSON_stringify x) = Ok y) xs l.
Proof.
  revert i acc. induction xs as [|x xs IH]; intros i acc H; simpl in H.
  - injection H as <-. exists []. split; [rewrite app_nil_r; reflexivity | constructor].
  - destruct (p (JSON_stringify x)) as [y|e] eqn:Hx; [|discriminate].
    destruct (IH _ _ H) as [l [-> Hl]]. exists (y :: l).
    split; [rewrite <- app_assoc; reflexivity | constructor; assumption].
Qed.

Lemma parse_items_throw p i xs acc e :
  parse_items p i xs acc = Throw e ->
  exists pre x post e',
    xs = pre ++ x :: post /\ e = ArrayItemFailed (i + length pre) e'
    /\ Forall (fun y => exists r, p (JSON_stringify y) = Ok r) pre
    /\ p (JSON_stringify x) = Throw e'.
Proof.
  revert i acc. induction xs as [|x xs IH]; intros i acc H; simpl in H; [discriminate|].
  destruct (p (JSON_stringify x)) as [y|e0] eqn:Hx.
  - destruct (IH _ _ H) as [pre [x' [post [e' [-> [-> [Hpre Hx']]]]]]].
    exists (x :: pre), x', post, e'. split; [reflexivity|]. split.
    + f_equal. simpl. lia.
    + split; [constructor; [exists y; exact Hx | exact Hpre] | exact Hx'].
  - injection H as <-. exists [], x, xs, e0.
    split; [reflexivity|]. split; [rewrite Nat.add_0_r; reflexivity|].
    split; [constructor | exact Hx].
Qed.

Lemma Forall2_exists_l {X Y} (R : X -> Y -> Prop) xs ys :
  Forall2 R xs ys -> Forall (fun y => exists x, R x y) ys.
Proof. induction 1; constructor; eauto. Qed.

Lemma field_step_assigned_child child opt parsedObj key r :
  field_step child opt parsedObj key = FieldAssigned r ->
  child (field_text parsedObj key) = Ok r.
Proof.
  unfold field_step. destruct (js_in parsedObj key); simpl.
  - destruct (child _); congruence.
  - destruct opt; discriminate.
Qed.

Lemma field_step_skipped_optional child opt parsedObj key :
  field_step child opt parsedObj key = FieldSkipped -> opt = true.
Proof.
  unfold field_step. destruct (js_in parsedObj key); simpl.
  - destruct (child _); discriminate.
  - destruct opt; [reflexivity | discriminate].
Qed.

Lemma existsb_eqb_filter f k ks :
  existsb (String.eqb k) (filter f ks) = f k && existsb (String.eqb k) ks.
Proof.
  induction ks as [|k' ks IH]; simpl; [rewrite andb_false_r; reflexivity|].
  destruct (String.eqb k k') eqn:E.
  - apply String.eqb_eq in E. subst k'.
    destruct (f k); simpl; [rewrite String.eqb_refl; reflexivity | exact IH].
  - destruct (f k'); simpl; [rewrite E|]; rewrite IH, ?orb_false_r; reflexivity.
Qed.

Lemma own_lookup_In {A} (ps : list (string * A)) k x :
  own_lookup ps k = Some x -> In (k, x) ps.
Proof.
  induction ps as [|[k' x'] ps IH]; simpl; [discriminate|].
  destruct (String.eqb k k') eqn:E.
  - apply String.eqb_eq in E. subst k'. intros H; injection H as ->. left; reflexivity.
  - intros H. right. apply IH, H.
Qed.

Lemma list_string_eqb_refl xs : list_string_eqb xs xs = true.
Proof. induction xs; simpl; [reflexivity|]. rewrite String.eqb_refl. exact IHxs. Qed.

Lemma not_inherited_not_proto k :
  inherited_key k = false -> String.eqb k "__proto__" = false.
Proof.
  intros H. destruct (String.eqb k "__proto__") eqn:E; [|reflexivity].
  apply String.eqb_eq in E. subst k. discriminate.
Qed.

Lemma collect_lookup ps sh l :
  nodupb (map fst sh) = true ->
  forallb (fun k => negb (inherited_key k)) (map fst sh) = true ->
  collect (object_step ps) sh = Ok l ->
  Forall (fun e => match own_lookup l (fst e) with
                   | Some x => parse (snd e) (field_text ps (fst e)) = Ok x
                   | None => isOptional (schema_meta (snd e)) = true
                   end) sh.
Proof.
  revert l. induction sh as [|[k fs] sh IH]; intros l Hnd Hinh H; [constructor|].
  cbn [map fst nodupb forallb] in Hnd, Hinh.
  apply andb_prop in Hnd as [Hk Hnd]. apply negb_true_iff in Hk.
  apply andb_prop in Hinh as [Hkinh Hinh]. apply negb_true_iff in Hkinh.
  assert (Hfresh : forall l', collect (object_step ps) sh = Ok l' -> own_lookup l' k = None).
  { intros l' Hc. pose proof (has_own_existsb l' k) as Ho. unfold has_own in Ho.
    rewrite (collect_keys _ _ _ Hc), existsb_eqb_filter, Hk, andb_false_r in Ho.
    destruct (own_lookup l' k); [discriminate | reflexivity]. }
  assert (Hrest : forall l' r,
             Forall (fun e => match own_lookup l' (fst e) with
                              | Some x => parse (snd e) (field_text ps (fst e)) = Ok x
                              | None => isOptional (schema_meta (snd e)) = true
                              end) sh ->
             Forall (fun e => match own_lookup ((k, r) :: l') (fst e) with
                              | Some x => parse (snd e) (field_text ps (fst e)) = Ok x
                              | None => isOptional (schema_meta (snd e)) = true
                              end) sh).
  { intros l' r Hl'. apply Forall_forall. intros [k' fs'] Hin.
    rewrite Forall_forall in Hl'. specialize (Hl' _ Hin). simpl in Hl' |- *.
    destruct (String.eqb k' k) eqn:E; [|exact Hl'].
    apply String.eqb_eq in E. subst k'.
    assert (existsb (String.eqb k) (map fst sh) = true).
    { apply existsb_exists. exists k. split; [|apply String.eqb_refl].
      apply (in_map fst) in Hin. exact Hin. }
    congruence. }
  rewrite collect_cons in H.
  destruct (object_step ps k fs) as [|r|e] eqn:Hs.
  - constructor.
    + simpl. rewrite (Hfresh l H). exact (field_step_skipped_optional _ _ _ _ Hs).
    + apply IH; assumption.
  - destruct (collect (object_step ps) sh) as [l'|e] eqn:Hc; [|discriminate].
    cbn [bind] in H. rewrite (not_inherited_not_proto _ Hkinh) in H.
    injection H as <-. constructor.
    + simpl. rewrite String.eqb_refl. exact (field_step_assigned_child _ _ _ _ _ Hs).
    + apply Hrest, IH; [assumption | assumption | reflexivity].
  - discriminate.
Qed.

(** What [parse] returns on a schema tree with well-formed shapes conforms
    to the schema and, when its numbers are finite, is encodable. *)
Definition parse_sound_prop (s : schema) : Prop :=
  forall t v, wf_schema s = true -> parse s t = Ok v ->
              conforms s v = true /\ (stable_numbers v = true -> encodable s v = true).

Lemma parse_sound_core : forall s, parse_sound_prop s.
Proof.
  apply schema_ind'; unfold parse_sound_prop.
  - intros m [v|msg] v' _ H; [|discriminate]. simpl in H.
    destruct v; try discriminate. destruct (runValidation m _) eqn:Hv; [|discriminate].
    injection H as <-. split; [exact Hv | reflexivity].
  - intros m [v|msg] v' _ H; [|discriminate]. simpl in H.
    destruct v; try discriminate. destruct (runValidation m _) eqn:Hv; [|discriminate].
    injection H as <-. split; [exact Hv|]. destruct n; simpl; congruence.
  - intros m [v|msg] v' _ H; [|discriminate]. simpl in H.
    destruct v; try discriminate. destruct (runValidation m _) eqn:Hv; [|discriminate].
    injection H as <-. split; [exact Hv | reflexivity].
  - intros item m IH [v|msg] v' Hwf H; [|discriminate].
    destruct v as [| | | |xs|ps]; try discriminate.
    rewrite parse_array_eq in H. simpl in Hwf.
    destruct (parse_items (parse item) 0 xs []) as [r|e] eqn:Hp; [|discriminate].
    cbn [bind] in H. destruct (runValidation m (JArr r)) eqn:Hv; [|discriminate].
    injection H as <-.
    destruct (parse_items_ok _ _ _ _ _ Hp) as [l [Hr Hl]]. simpl in Hr. subst r. simpl.
    apply Forall2_exists_l in Hl. rewrite Forall_forall in Hl.
    split.
    + rewrite Hv, andb_true_r. apply forallb_forall. intros y Hy.
      destruct (Hl y Hy) as [x Hx]. apply (IH _ _ Hwf Hx).
    + intros Hfin. apply forallb_forall. intros y Hy.
      rewrite forallb_forall in Hfin.
      destruct (Hl y Hy) as [x Hx]. apply (IH _ _ Hwf Hx), Hfin, Hy.
  - intros shape m IH [v|msg] v' Hwf H; [|discriminate].
    destruct v as [| | | |xs|ps]; try discriminate.
    simpl in Hwf. apply andb_prop in Hwf as [Hwf Hwfs].
    apply andb_prop in Hwf as [Hok Hinh].
    pose proof Hok as Hok'. apply andb_prop in Hok' as [Hord Hnd].
    rewrite parse_object_eq, run_fields_collect in H by assumption.
    destruct (collect (object_step ps) shape) as [l|e] eqn:Hc; [|discriminate].
    simpl in H. destruct (runValidation m (JObj l)) eqn:Hv; [|discriminate].
    injection H as <-.
    pose proof (collect_lookup _ _ _ Hnd Hinh Hc) as Hlk.
    pose proof (collect_keys _ _ _ Hc) as Hkeys.
    rewrite Forall_forall in IH, Hlk. rewrite forallb_forall in Hwfs.
    assert (Hmat : forall k, In k (map fst shape) -> has_own l k = materialized ps k).
    { intros k Hk. rewrite has_own_existsb, Hkeys, existsb_eqb_filter.
      replace (existsb (String.eqb k) (map fst shape)) with true
        by (symmetry; apply existsb_exists; exists k; split; [exact Hk | apply String.eqb_refl]).
      apply andb_true_r. }
    split.
    + simpl. rewrite Hv, andb_true_r. apply andb_true_intro. split.
      * apply forallb_forall. intros [k fs] Hin.
        specialize (Hlk _ Hin). simpl in Hlk |- *.
        destruct (own_lookup l k) as [x|]; [|exact Hlk].
        apply (IH _ Hin _ _ (Hwfs _ Hin) Hlk).
      * apply forallb_forall. intros [k x] Hin. simpl.
        apply (in_map fst) in Hin. simpl in Hin. rewrite Hkeys in Hin.
        apply filter_In in Hin as [Hin _].
        rewrite has_own_existsb. apply existsb_exists.
        exists k. split; [exact Hin | apply String.eqb_refl].
    + intros Hfin. simpl. apply andb_true_intro. split.
      * rewrite (filter_ext_in _ _ _ Hmat), <- Hkeys. apply list_string_eqb_refl.
      * apply forallb_forall. intros [k fs] Hin.
        specialize (Hlk _ Hin). simpl in Hlk |- *.
        destruct (own_lookup l k) as [x|] eqn:Hx; [|reflexivity].
        apply (IH _ Hin _ _ (Hwfs _ Hin) Hlk).
        simpl in Hfin. rewrite forallb_forall in Hfin.
        apply (Hfin (k, x)), own_lookup_In, Hx.
Qed.

(** A successful parse never returns a value its schema would reject: on a
    schema tree whose shapes are object key lists and declare no property
    name of [Object.prototype], the result has the schema's shape, every
    required field, no undeclared field, and passes every validator of the
    tree. *)
Theorem parse_result_conforms :
  forall s t v, wf_schema s = true -> parse s t = Ok v -> conforms s v = true.
Proof. intros s t v Hwf H. apply (parse_sound_core s t v Hwf H). Qed.

(** Parsing is idempotent: on such a schema tree, a result whose numbers
    are finite parses, after [JSON.stringify], to itself. *)
Theorem parse_result_reparses :
  forall s t v,
    wf_schema s = true -> parse s t = Ok v -> stable_numbers v = true ->
    parse s (JSON_stringify v) = Ok v.
Proof.
  intros s t v Hwf H Hfin.
  destruct (parse_sound_core s t v Hwf H) as [Hc He].
  unfold JSON_stringify.
  destruct (roundtrip_core s v Hwf Hc (He Hfin)) as [-> ->]. reflexivity.
Qed.

(** ** Errors of the array and object loops *)

(** The outcomes of [ArraySchema.parse] on an array: either it returns an
    array with one result per item, in input order, each the item schema's
    parse of that item, which the array validator accepts; or it throws for
    the first failing item, with its index; or every item parsed and the
    array validator rejected the results. *)
Theorem parse_array_outcome :
  forall item m xs,
    (forall v, parse (ArraySchema item m) (JSONText (JArr xs)) = Ok v ->
               exists r, v = JArr r
                 /\ Forall2 (fun x y => parse item (JSON_stringify x) = Ok y) xs r
                 /\ runValidation m (JArr r) = true)
    /\
    (forall e, parse (ArraySchema item m) (JSONText (JArr xs)) = Throw e ->
               (exists pre x post e',
                   xs = pre ++ x :: post /\ e = ArrayItemFailed (length pre) e'
                   /\ Forall (fun y => exists r, parse item (JSON_stringify y) = Ok r) pre
                   /\ parse item (JSON_stringify x) = Throw e')
               \/
               (exists r, e = ArrayValidationFailed (JArr r)
                          /\ runValidation m (JArr r) = false
                          /\ Forall2 (fun x y => parse item (JSON_stringify x) = Ok y) xs r)).
Proof.
  intros item m xs. rewrite parse_array_eq.
  destruct (parse_items (parse item) 0 xs []) as [r|e] eqn:Hp; cbn [bind].
  - destruct (parse_items_ok _ _ _ _ _ Hp) as [l [Hr Hl]]. simpl in Hr. subst r.
    destruct (runValidation m (JArr l)) eqn:Hv; split; intros r' H;
      try discriminate.
    + injection H as <-. exists l. split; [reflexivity|]. split; [exact Hl | exact Hv].
    + injection H as <-. right. exists l. split; [reflexivity|]. split; assumption.
  - split; intros r' H; [discriminate|]. injection H as <-. left.
    destruct (parse_items_throw _ _ _ _ _ Hp) as [pre [x [post [e' [H1 [H2 [H3 H4]]]]]]].
    exists pre, x, post, e'. repeat split; assumption.
Qed.

Lemma run_fields_throw step sh acc e :
  run_fields step sh acc = Throw e ->
  exists k fs, In (k, fs) sh /\ step k fs = FieldFailed e.
Proof.
  revert acc. induction sh as [|[k fs] sh IH]; intros acc H; simpl in H; [discriminate|].
  destruct (step k fs) as [|r|e'] eqn:Hs.
  - destruct (IH _ H) as [k' [fs' [Hin Hk]]]. exists k', fs'. split; [right|]; assumption.
  - destruct (IH _ H) as [k' [fs' [Hin Hk]]]. exists k', fs'. split; [right|]; assumption.
  - injection H as <-. exists k, fs. split; [left; reflexivity | exact Hs].
Qed.

(** Every error [ObjectSchema.parse] throws on an object names a declared
    field and the reason: the field is not [in] the input and is required,
    or the field's own parse threw; otherwise the object validator rejected
    the assembled result. *)
Theorem parse_object_error :
  forall shape m ps e,
    parse (ObjectSchema shape m) (JSONText (JObj ps)) = Throw e ->
    (exists k fs, In (k, fs) shape /\
       ((js_in ps k = false /\ isOptional (schema_meta fs) = false
         /\ e = MissingRequiredProperty k)
        \/ (exists e', js_in ps k = true /\ parse fs (field_text ps k) = Throw e'
                       /\ e = PropertyFailed k e')))
    \/ (exists r, e = ObjectValidationFailed (JObj r) /\ runValidation m (JObj r) = false).
Proof.
  intros shape m ps e H. rewrite parse_object_eq in H.
  destruct (run_fields (object_step ps) shape []) as [r|e0] eqn:Hr; cbn [bind] in H.
  - destruct (runValidation m (JObj r)) eqn:Hv; [discriminate|].
    injection H as <-. right. exists r. split; [reflexivity | exact Hv].
  - injection H as ->. left.
    destruct (run_fields_throw _ _ _ _ Hr) as [k [fs [Hin Hs]]].
    exists k, fs. split; [exact Hin|].
    unfold object_step, field_step in Hs.
    destruct (js_in ps k) eqn:Hk; simpl in Hs.
    + right. destruct (parse fs (field_text ps k)) as [x|e'] eqn:Hp; [discriminate|].
      injection Hs as <-. exists e'. repeat split; assumption.
    + left. destruct (isOptional (schema_meta fs)); [discriminate|].
      injection Hs as <-. repeat split.
Qed.

(** ** Optional fields *)

Lemma run_fields_app step pre post acc :
  run_fields step (pre ++ post) acc
  = (acc' <- run_fields step pre acc ;; run_fields step post acc').
Proof.
  revert acc. induction pre as [|[k fs] pre IH]; intros acc; simpl; [reflexivity|].
  destruct (step k fs); [apply IH | apply IH | reflexivity].
Qed.

(** An optional field that the input object does not have (and that
    [Object.prototype] does not provide) plays no part in the parse: the
    schema without it parses the object to the same outcome. *)
Theorem parse_absent_optional_field :
  forall shape1 k fs shape2 m ps,
    has_own ps k = false -> inherited_key k = false ->
    isOptional (schema_meta fs) = true ->
    parse (ObjectSchema (shape1 ++ (k, fs) :: shape2) m) (JSONText (JObj ps))
    = parse (ObjectSchema (shape1 ++ shape2) m) (JSONText (JObj ps)).
Proof.
  intros shape1 k fs shape2 m ps Hown Hinh Hopt.
  rewrite !parse_object_eq, !run_fields_app.
  destruct (run_fields (object_step ps) shape1 []) as [acc|e]; cbn [bind]; [|reflexivity].
  assert (Hs : object_step ps k fs = FieldSkipped).
  { unfold object_step. rewrite field_step_absent, Hopt by assumption. reflexivity. }
  simpl run_fields at 1. rewrite Hs. reflexivity.
Qed.

(** ** The earlier versions of the schema classes *)

Lemma run_fields_map step f sh acc :
  run_fields step (map (fun e => (fst e, f (snd e))) sh) acc
  = run_fields (fun k fs => step k (f fs)) sh acc.
Proof.
  revert acc. induction sh as [|[k fs] sh IH]; intros acc; simpl; [reflexivity|].
  destruct (step k (f fs)); [apply IH | apply IH | reflexivity].
Qed.

Lemma clear_optional_flag s : isOptional (schema_meta (clear_optional s)) = false.
Proof. destruct s; reflexivity. Qed.

(** The parse of [src/src/schema.ts] is the current parse of the schema
    tree with every field made required: with no optional flag set the two
    versions agree, and the older one reports every absent field. *)
Theorem legacy_parse_clear_optional :
  forall s t, Legacy.parse s t = parse (clear_optional s) t.
Proof.
  apply (schema_ind' (fun s => forall t, Legacy.parse s t = parse (clear_optional s) t)).
  - intros m [v|msg]; reflexivity.
  - intros m [v|msg]; reflexivity.
  - intros m [v|msg]; reflexivity.
  - intros item m IH [v|msg]; [|reflexivity].
    destruct v as [| | | |xs|ps]; try reflexivity.
    change (bind (parse_items (Legacy.parse item) 0 xs [])
                 (fun result => if runValidation m (JArr result) then Ok (JArr result)
                                else Throw (ArrayValidationFailed (JArr result)))
            = bind (parse_items (parse (clear_optional item)) 0 xs [])
                 (fun result => if runValidation m (JArr result) then Ok (JArr result)
                                else Throw (ArrayValidationFailed (JArr result)))).
    rewrite (parse_items_ext _ _ 0 xs [] IH). reflexivity.
  - intros shape m IH [v|msg]; [|reflexivity].
    destruct v as [| | | |xs|ps]; try reflexivity.
    change (bind (run_fields (fun key fs => Legacy.field_step (Legacy.parse fs) ps key) shape [])
                 (fun result => if runValidation m (JObj result) then Ok (JObj result)
                                else Throw (ObjectValidationFailed (JObj result)))
            = bind (run_fields (fun key fs => field_step (parse fs) (isOptional (schema_meta fs)) ps key)
                               (map (fun e => (fst e, clear_optional (snd e))) shape) [])
                 (fun result => if runValidation m (JObj result) then Ok (JObj result)
                                else Throw (ObjectValidationFailed (JObj result)))).
    rewrite run_fields_map.
    rewrite (run_fields_ext (fun key fs => Legacy.field_step (Legacy.parse fs) ps key)
                            (fun k fs => field_step (parse (clear_optional fs))
                                           (isOptional (schema_meta (clear_optional fs))) ps k));
      [reflexivity|].
    eapply Forall_impl; [|exact IH]. intros [k fs] Hfs. simpl in Hfs |- *.
    rewrite clear_optional_flag. unfold Legacy.field_step, field_step.
    rewrite Hfs. reflexivity.
Qed.

(** The hint of [src/src/schema.ts] is the current hint with the optional
    marker left out: [stringify] of the older version is the current
    [stringify] of the schema tree with every field made required. *)
Theorem legacy_stringify_clear_optional :
  forall s, Legacy.stringify s = stringify (clear_optional s).
Proof.
  apply schema_ind'.
  - intros [[f|] o]; reflexivity.
  - intros [[f|] o]; reflexivity.
  - intros [[f|] o]; reflexivity.
  - intros item [[f|] o] IH; simpl; rewrite IH; reflexivity.
  - intros shape m IH.
    assert (Hmap : map (fun '(key, fs) => (key ++ ": " ++ Legacy.stringify fs)%string) shape
                   = map (fun '(key, fs) => (key ++ ": " ++ stringify fs)%string)
                         (map (fun e => (fst e, clear_optional (snd e))) shape)).
    { rewrite map_map. apply map_ext_in. intros [k fs] Hin.
      rewrite Forall_forall in IH. specialize (IH _ Hin). simpl in IH |- *.
      rewrite IH. reflexivity. }
    change (Legacy.with_validator_hint m
              ("{ " ++ String.concat ", "
                 (map (fun '(key, fs) => (key ++ ": " ++ Legacy.stringify fs)%string) shape)
               ++ " }")%string
            = buildStringifyResult {| validationFn := validationFn m; isOptional := false |}
                ("{ " ++ String.concat ", "
                   (map (fun '(key, fs) => (key ++ ": " ++ stringify fs)%string)
                        (map (fun e => (fst e, clear_optional (snd e))) shape))
                 ++ " }")%string).
    rewrite Hmap. destruct m as [[f|] o]; reflexivity.
Qed.

(** The [toString] of the first version ([src/unnamed/part_007]) is the
    current [stringify] of the schema tree stripped of its validators and
    optional flags: the later versions only add hint comments. *)
Theorem initial_toString_strip_meta :
  forall s, Initial.toString s = stringify (strip_meta s).
Proof.
  apply schema_ind'.
  - reflexivity.
  - reflexivity.
  - reflexivity.
  - intros item m IH. simpl. rewrite IH. reflexivity.
  - intros shape m IH.
    assert (Hmap : map (fun '(key, fs) => (key ++ ": " ++ Initial.toString fs)%string) shape
                   = map (fun '(key, fs) => (key ++ ": " ++ stringify fs)%string)
                         (map (fun e => (fst e, strip_meta (snd e))) shape)).
    { rewrite map_map. apply map_ext_in. intros [k fs] Hin.
      rewrite Forall_forall in IH. specialize (IH _ Hin). simpl in IH |- *.
      rewrite IH. reflexivity. }
    change (("{ " ++ String.concat ", "
               (map (fun '(key, fs) => (key ++ ": " ++ Initial.toString fs)%string) shape)
             ++ " }")%string
            = buildStringifyResult default_meta
                ("{ " ++ String.concat ", "
                   (map (fun '(key, fs) => (key ++ ": " ++ stringify fs)%string)
                        (map (fun e => (fst e, strip_meta (snd e))) shape))
                 ++ " }")%string).
    rewrite Hmap. reflexivity.
Qed.

(** ** Witnesses *)


Lemma C3_fail_fast_witness :
  parse (s_array s_number) (JSONText (JArr [JNum (Finite 1); JStr "x"; JBool true]))
  = Throw (ArrayItemFailed 1 (TypeMismatch "number" "string"))
  /\
  parse (ObjectSchema [("a", s_number); ("b", s_string); ("c", s_string)] default_meta)
        (JSONText (JObj [("a", JNum (Finite 1)); ("b", JNum (Finite 2));
                         ("c", JNum (Finite 3))]))
  = Throw (PropertyFailed "b" (TypeMismatch "string" "number")).
Proof.
  split.
  - apply ((proj1 C3_fail_fast) s_number default_meta [JNum (Finite 1)] (JStr "x")
             [JBool true] (TypeMismatch "number" "string")).
    + constructor; [eexists; reflexivity | constructor].
    + reflexivity.
  - apply ((proj2 C3_fail_fast) [("a", s_number)] "b" s_string [("c", s_string)]
             default_meta).
    + constructor; [exact I | constructor].
    + reflexivity.
    + reflexivity.
Defined.

Lemma C5_null_type_mismatch_witness :
  parse (ObjectSchema [] default_meta) (JSONText (JStr "x"))
  = Throw (TypeMismatch "object" "string")
  /\
  object_step [("age", JNull)] "age" (optional s_number)
  = FieldFailed (PropertyFailed "age" (TypeMismatch "number" "object")).
Proof.
  split.
  - apply ((proj1 (proj2 (proj2 C5_null_type_mismatch))) [] default_meta (JStr "x"));
      intros; discriminate.
  - apply (proj2 (proj2 (proj2 C5_null_type_mismatch))). reflexivity.
Defined.

Lemma C7_object_stringify_witness :
  (nodupb (map fst [("b", s_string); ("1", s_number)]) = true
   /\ exists idx,
        stringify (ObjectSchema (object_literal [("b", s_string); ("1", s_number)])
                                default_meta)
        = buildStringifyResult default_meta
            ("{ " ++ String.concat ", "
                 (map (fun '(key, fs) => key ++ ": " ++ stringify fs)
                      (app idx (filter (fun e => negb (is_index (fst e)))
                                       [("b", s_string); ("1", s_number)])))
             ++ " }")%string
        /\ Permutation idx (filter (fun e => is_index (fst e))
                                   [("b", s_string); ("1", s_number)])
        /\ StronglySorted index_le idx)
  /\ object_literal [("name", s_string); ("age", s_number)]
     = [("name", s_string); ("age", s_number)].
Proof.
  split.
  - split; [reflexivity|].
    apply (proj1 C7_object_stringify [("b", s_string); ("1", s_number)] default_meta).
    reflexivity.
  - apply (proj2 C7_object_stringify); reflexivity.
Defined.

Lemma C10_result_in_declaration_order_witness :
  property_order_ok (map fst [("name", s_string); ("age", optional s_number)]) = true
  /\ parse (ObjectSchema [("name", s_string); ("age", optional s_number)] default_meta)
           (JSONText (JObj [("age", JNum (Finite 3)); ("name", JStr "J");
                            ("extra", JBool true)]))
     = Ok (JObj [("name", JStr "J"); ("age", JNum (Finite 3))])
  /\ map fst [("name", JStr "J"); ("age", JNum (Finite 3))]
     = filter (materialized [("age", JNum (Finite 3)); ("name", JStr "J");
                             ("extra", JBool true)])
              (map fst [("name", s_string); ("age", optional s_number)]).
Proof.
  split; [reflexivity|]. split; [reflexivity|].
  apply (C10_result_in_declaration_order
           [("name", s_string); ("age", optional s_number)] default_meta
           [("age", JNum (Finite 3)); ("name", JStr "J"); ("extra", JBool true)]
           [("name", JStr "J"); ("age", JNum (Finite 3))]); reflexivity.
Defined.

Lemma parse_result_conforms_witness :
  wf_schema (s_object [("name", s_string); ("tags", s_array s_number);
                       ("age", optional s_number)]) = true
  /\ parse (s_object [("name", s_string); ("tags", s_array s_number);
                      ("age", optional s_number)])
           (JSONText (JObj [("tags", JArr [JNum (Finite 1)]); ("name", JStr "J");
                            ("x", JBool true)]))
     = Ok (JObj [("name", JStr "J"); ("tags", JArr [JNum (Finite 1)])])
  /\ conforms (s_object [("name", s_string); ("tags", s_array s_number);
                         ("age", optional s_number)])
              (JObj [("name", JStr "J"); ("tags", JArr [JNum (Finite 1)])]) = true.
Proof.
  split; [reflexivity|]. split; [reflexivity|].
  apply (parse_result_conforms
           (s_object [("name", s_string); ("tags", s_array s_number);
                      ("age", optional s_number)])
           (JSONText (JObj [("tags", JArr [JNum (Finite 1)]); ("name", JStr "J");
                            ("x", JBool true)]))); reflexivity.
Defined.

Lemma parse_result_reparses_witness :
  wf_schema (s_object [("name", s_string); ("age", optional s_number)]) = true
  /\ parse (s_object [("name", s_string); ("age", optional s_number)])
           (JSONText (JObj [("age", JNum (Finite 3)); ("name", JStr "J")]))
     = Ok (JObj [("name", JStr "J"); ("age", JNum (Finite 3))])
  /\ stable_numbers (JObj [("name", JStr "J"); ("age", JNum (Finite 3))]) = true
  /\ parse (s_object [("name", s_string); ("age", optional s_number)])
           (JSON_stringify (JObj [("name", JStr "J"); ("age", JNum (Finite 3))]))
     = Ok (JObj [("name", JStr "J"); ("age", JNum (Finite 3))]).
Proof.
  split; [reflexivity|]. split; [reflexivity|]. split; [reflexivity|].
  apply (parse_result_reparses
           (s_object [("name", s_string); ("age", optional s_number)])
           (JSONText (JObj [("age", JNum (Finite 3)); ("name", JStr "J")]))); reflexivity.
Defined.

Lemma parse_array_outcome_witness :
  (parse (s_array s_number) (JSONText (JArr [JNum (Finite 1); JNum (Finite 2)]))
   = Ok (JArr [JNum (Finite 1); JNum (Finite 2)])
   /\ exists r, JArr [JNum (Finite 1); JNum (Finite 2)] = JArr r
        /\ Forall2 (fun x y => parse s_number (JSON_stringify x) = Ok y)
                   [JNum (Finite 1); JNum (Finite 2)] r
        /\ runValidation default_meta (JArr r) = true)
  /\
  (parse (s_array s_string) (JSONText (JArr [JStr "a"; JNum (Finite 1)]))
   = Throw (ArrayItemFailed 1 (TypeMismatch "string" "number"))
   /\ ((exists pre x post e',
           [JStr "a"; JNum (Finite 1)] = pre ++ x :: post
           /\ ArrayItemFailed 1 (TypeMismatch "string" "number")
              = ArrayItemFailed (length pre) e'
           /\ Forall (fun y => exists r, parse s_string (JSON_stringify y) = Ok r) pre
           /\ parse s_string (JSON_stringify x) = Throw e')
       \/
       (exists r, ArrayItemFailed 1 (TypeMismatch "string" "number")
                  = ArrayValidationFailed (JArr r)
                  /\ runValidation default_meta (JArr r) = false
                  /\ Forall2 (fun x y => parse s_string (JSON_stringify x) = Ok y)
                             [JStr "a"; JNum (Finite 1)] r))).
Proof.
  split; split.
  - reflexivity.
  - apply (proj1 (parse_array_outcome s_number default_meta
                    [JNum (Finite 1); JNum (Finite 2)])).
    reflexivity.
  - reflexivity.
  - apply (proj2 (parse_array_outcome s_string default_meta [JStr "a"; JNum (Finite 1)])).
    reflexivity.
Defined.

Lemma parse_object_error_witness :
  parse (s_object [("name", s_string)]) (JSONText (JObj []))
  = Throw (MissingRequiredProperty "name")
  /\ ((exists k fs, In (k, fs) [("name", s_string)] /\
         ((js_in (@nil (string * jval)) k = false /\ isOptional (schema_meta fs) = false
           /\ MissingRequiredProperty "name" = MissingRequiredProperty k)
          \/ (exists e', js_in (@nil (string * jval)) k = true /\ parse fs (field_text (@nil (string * jval)) k) = Throw e'
                         /\ MissingRequiredProperty "name" = PropertyFailed k e')))
      \/ (exists r, MissingRequiredProperty "name" = ObjectValidationFailed (JObj r)
                    /\ runValidation default_meta (JObj r) = false)).
Proof.
  split; [reflexivity|].
  apply (parse_object_error [("name", s_string)] default_meta []). reflexivity.
Defined.

Lemma parse_absent_optional_field_witness :
  has_own [("name", JStr "J")] "age" = false
  /\ inherited_key "age" = false
  /\ isOptional (schema_meta (optional s_number)) = true
  /\ parse (ObjectSchema ([("name", s_string)] ++ ("age", optional s_number) :: [])
                         default_meta)
           (JSONText (JObj [("name", JStr "J")]))
     = parse (ObjectSchema ([("name", s_string)] ++ []) default_meta)
             (JSONText (JObj [("name", JStr "J")])).
Proof.
  split; [reflexivity|]. split; [reflexivity|]. split; [reflexivity|].
  apply (parse_absent_optional_field [("name", s_string)] "age" (optional s_number) []
           default_meta [("name", JStr "J")]); reflexivity.
Defined.

Lemma parse_object_undeclared_keys_witness :
  Forall (fun e => own_lookup [("name", JStr "J"); ("x", JBool true)] (fst e)
                   = own_lookup [("name", JStr "J")] (fst e)) [("name", s_string)]
  /\ parse (ObjectSchema [("name", s_string)] default_meta)
           (JSONText (JObj [("name", JStr "J"); ("x", JBool true)]))
     = parse (ObjectSchema [("name", s_string)] default_meta)
             (JSONText (JObj [("name", JStr "J")])).
Proof.
  split.
  - constructor; [reflexivity | constructor].
  - apply parse_object_undeclared_keys. constructor; [reflexivity | constructor].
Defined.
